(** * Lode: the test-result tree of the main process

    A shallow embedding of the [Test] nugget (its [build] / [mergeResults] /
    [debrief] / [render] / [persist] methods), of the [entities] lookup of
    the main process and of the [SSH] constructor, with the properties the
    specification states about them; and of the quoting of remote command
    arguments, of some handlers of the main process and of the modal store
    of the renderer, with properties read off their code.

    JavaScript objects that the code treats as typed records (the
    [ITestResult] interface) are records with optional fields; objects the
    code treats as bags of properties ([stats], the payload of [render]) are
    finite maps from property names to values. Code that mutates [this] or
    its argument in place returns the mutated value. The wall clock and the
    events emitted are threaded through a small state monad.

    The [Nugget] base class is not among the sources. The methods of it
    that the merge needs are modelled from the specification and marked so;
    [debrief] is also given over arbitrary such methods, and [defaults] is
    a parameter of [persist] and [render]. *)

From stdpp Require Import base option list gmap strings pretty fin_maps.
From Stdlib Require Import ZArith Lia Permutation Ascii.

Set Default Proof Using "Type".
Set Warnings "-register-all".
Open Scope string_scope.
Open Scope list_scope.

(** ** JavaScript values held in untyped properties *)

Inductive JsValue :=
  | JUndefined
  | JNull
  | JBool (b : bool)
  | JNum (z : Z)               (* integral numbers are enough for this code *)
  | JStr (s : string)
  | JObject (tag : nat).       (* any other object or array, kept opaque *)

(** [!!v] of JavaScript. *)
Definition truthy (v : JsValue) : bool :=
  match v with
  | JUndefined | JNull => false
  | JBool b => b
  | JNum z => negb (z =? 0)%Z
  | JStr s => negb (String.eqb s "")
  | JObject _ => true
  end.

(** A plain object used as a bag of properties. *)
Abbreviation JsProps := (gmap string JsValue).

(** [o.key] where [o] may be [undefined]: lodash's [get] on a two-step path
    answers [undefined] when the first step is missing. *)
Definition get_prop (o : option JsProps) (key : string) : JsValue :=
  match o with
  | Some props => default JUndefined (props !! key)
  | None => JUndefined
  end.

(** The third argument of lodash's [get]: used only when the resolved value
    is [undefined] (a [null] or an empty string is returned as it is). *)
Definition or_default (v dflt : JsValue) : JsValue :=
  match v with
  | JUndefined => dflt
  | _ => v
  end.

(** [{ ...(o || {}), ...{ key: v } }] *)
Definition spread_with (o : option JsProps) (key : string) (v : JsValue) : JsProps :=
  <[key := v]> (default ∅ o).

(** ** Status *)

Inductive Status :=
  | st_error | st_failed | st_warning | st_incomplete | st_passed
  | st_running | st_queued | st_idle | st_empty.

#[global] Instance Status_eq_dec : EqDecision Status.
Proof. solve_decision. Defined.

(** Modelled from the spec: [@lib/frameworks/status] is not among the sources.
    The closed status set with its precedence, highest first:
    error > failed > warning > incomplete > passed > running > queued > idle > empty. *)
Definition precedence (s : Status) : nat :=
  match s with
  | st_error => 8 | st_failed => 7 | st_warning => 6 | st_incomplete => 5
  | st_passed => 4 | st_running => 3 | st_queued => 2 | st_idle => 1
  | st_empty => 0
  end.

Definition higher (a b : Status) : Status :=
  if Nat.ltb (precedence a) (precedence b) then b else a.

(** Modelled from the spec: the status aggregator of [@lib/frameworks/status].
    A parent's status is the highest-precedence status among its children;
    [empty] only applies to a childless container. *)
Definition parseStatus (components : list Status) : Status :=
  foldr higher st_empty components.

(** ** Result fragments: the [ITestResult] interface *)

Inductive ITestResult := mkResult {
  r_id : option string;
  r_name : option string;
  r_displayName : option (option string);     (* absent, null or a string *)
  r_status : option Status;
  r_feedback : option JsValue;
  r_console : option (list JsValue);
  r_params : option string;
  r_stats : option JsProps;
  r_isLast : option bool;
  r_tests : option (list ITestResult);
  r_hasChildren : option bool
}.

(** [result.status = s], [result.stats = o], [result.tests = ts] *)
Definition set_status (s : option Status) (r : ITestResult) : ITestResult :=
  mkResult (r_id r) (r_name r) (r_displayName r) s (r_feedback r) (r_console r)
           (r_params r) (r_stats r) (r_isLast r) (r_tests r) (r_hasChildren r).

Definition set_stats (o : option JsProps) (r : ITestResult) : ITestResult :=
  mkResult (r_id r) (r_name r) (r_displayName r) (r_status r) (r_feedback r) (r_console r)
           (r_params r) o (r_isLast r) (r_tests r) (r_hasChildren r).

Definition set_tests (ts : option (list ITestResult)) (r : ITestResult) : ITestResult :=
  mkResult (r_id r) (r_name r) (r_displayName r) (r_status r) (r_feedback r) (r_console r)
           (r_params r) (r_stats r) (r_isLast r) ts (r_hasChildren r).

(** [get(result, 'stats.first')], [get(result, 'stats.last')] *)
Definition stats_first (r : ITestResult) : JsValue := get_prop (r_stats r) "first".
Definition stats_last (r : ITestResult) : JsValue := get_prop (r_stats r) "last".

(** ** The world: wall clock and emitted events *)

Record World := mkWorld {
  clock : nat -> string;          (* what the n-th reading of the clock prints *)
  reads : nat;                    (* readings taken so far *)
  events : list (option string * string)   (* (emitter id, event), oldest first *)
}.

Definition M (A : Type) : Type := World -> A * World.

#[global] Instance M_ret : MRet M := fun A a w => (a, w).
#[global] Instance M_bind : MBind M :=
  fun A B k m w => let (a, w') := m w in k a w'.

(** [new Date().toISOString()] *)
Definition Date_toISOString : M string :=
  fun w => (clock w (reads w), mkWorld (clock w) (S (reads w)) (events w)).

Definition emit (who : option string) (event : string) : M unit :=
  fun w => (tt, mkWorld (clock w) (reads w) (events w ++ [(who, event)])).

(** ** Nuggets *)

Inductive Test := mkTest {
  this_status : Status;
  this_result : ITestResult;
  selected : bool;
  expanded : bool;
  partial : bool;
  this_tests : list Test
}.

Definition getId (t : Test) : option string := r_id (this_result t).
Definition getStatus (t : Test) : Status := this_status t.
Definition getName (t : Test) : option string := r_name (this_result t).

(** Modelled from the spec: [Nugget.getRecursiveStatus] is not among the
    sources. A leaf's status comes directly from its own payload; a payload
    that carries child results has the aggregate of theirs, an absent child
    status counting as [idle]. *)
Fixpoint getRecursiveStatus (result : ITestResult) : option Status :=
  match r_tests result with
  | Some (t :: ts) =>
      Some (parseStatus
              (List.map (fun c => default st_idle (getRecursiveStatus c)) (t :: ts)))
  | _ => r_status result
  end.

(** Modelled from the spec: [Nugget.updateStatus] is not among the sources.
    It stores the new status on the node. *)
Definition updateStatus (to : Status) (this : Test) : Test :=
  mkTest to (this_result this) (selected this) (expanded this) (partial this)
         (this_tests this).

(** Modelled from the spec: [Nugget.findTest] is not among the sources.
    Children are matched by id; the first match and its position. *)
Definition findTest (tests : list Test) (ident : option string) : option (nat * Test) :=
  list_find (fun t => getId t = ident) tests.

(** Modelled from the spec: [Nugget.countChildren] and [Nugget.hasChildren],
    structural queries over the immediate child sequence. *)
Definition countChildren (this : Test) : nat := length (this_tests this).
Definition hasChildren (this : Test) : bool := negb (Nat.eqb (countChildren this) 0).

(** [this.result = result]. When [this] is still under construction the other
    fields have the initial values of a nugget; its status is assigned by
    [updateStatus] before anything reads it. *)
Definition assign_result (this : option Test) (result : ITestResult) : Test :=
  match this with
  | Some t => mkTest (this_status t) result (selected t) (expanded t) (partial t)
                     (this_tests t)
  | None => mkTest st_idle result false false false []
  end.

(** Whether a child is represented in a payload: its id is the id of one of
    the payload's child results. *)
Definition represented (tests : list ITestResult) (t : Test) : bool :=
  bool_decide (getId t ∈ r_id <$> tests).

Section DebriefProtocol.

(** The node-level merge, [Test.build] below. *)
Variable build : ITestResult -> bool -> option Test -> M Test.
Variable cleanup : bool.

(** Modelled from the spec: the child loop of [Nugget.debriefTests], which
    is not among the sources. Each child result is merged into the existing
    child with its id, or a new child is made from it ([newTest], whose
    constructor builds with [cleanup = false]) and appended. The child
    results are the very objects the children keep as their [result], so
    the list handed back is the payload's [tests] as the merges left it. *)
Fixpoint mergeTests (tests : list ITestResult) (children : list Test)
  : M (list Test * list ITestResult) :=
  match tests with
  | [] => mret (children, [])
  | result :: rest =>
      match findTest children (r_id result) with
      | Some (i, child) =>
          child' ← build result cleanup (Some child);
          '(children', rest') ← mergeTests rest (<[i := child']> children);
          mret (children', this_result child' :: rest')
      | None =>
          child' ← build result false None;
          '(children', rest') ← mergeTests rest (children ++ [child']);
          mret (children', this_result child' :: rest')
      end
  end.

(** Modelled from the spec: [Nugget.debriefTests] (steps 2 to 4 of the
    merge). After the child loop, with [cleanup] every child not represented
    in the payload is removed; the status is recomputed from the children
    that remain, and [partial] tells whether some of them took no part. *)
Definition debriefTests (tests : list ITestResult) (this : Test) : M Test :=
  '(children, tests') ← mergeTests tests (this_tests this);
  let kept := if cleanup then filter (fun t => represented tests t) children
              else children in
  mret (mkTest (parseStatus (getStatus <$> kept))
               (set_tests (Some tests') (this_result this))
               (selected this) (expanded this)
               (negb (forallb (represented tests) kept))
               kept).

End DebriefProtocol.

(** ** The [Test] class *)

(** [Test.mergeResults]. The default of the inner [get] is an argument, so
    the clock is read whenever the first branch is not taken. *)
Definition mergeResults (this_result : option ITestResult) (result : ITestResult)
  : M ITestResult :=
  if truthy (stats_first result) then mret result
  else
    now ← Date_toISOString;
    mret (set_stats
            (Some (spread_with (r_stats result) "first"
                     (or_default (get_prop (this_result ≫= r_stats) "first") (JStr now))))
            result).

(** [Test.build]. [this] is [None] when called from the constructor. *)
Fixpoint build (result : ITestResult) (cleanup : bool) (this : option Test) : M Test :=
  let result1 := set_status (getRecursiveStatus result) result in
  merged ← mergeResults (this_result <$> this) result1;
  let this1 := updateStatus (default st_idle (r_status result1))
                 (assign_result this merged) in
  match r_tests result with
  | Some ((_ :: _) as tests) => debriefTests build cleanup tests this1
  | _ => mret this1
  end.

(** [new Test(window, result)] and [Test.newTest]. *)
Definition newTest (result : ITestResult) : M Test := build result false None.

(** The outcome of a promise whose executor has run. *)
Inductive Promise (A : Type) :=
  | Resolved (a : A)
  | Rejected.
Arguments Resolved {A} a.
Arguments Rejected {A}.

(** [Test.debrief]. The executor of the promise runs at once: it builds,
    emits and resolves; nothing in it calls [reject]. *)
Definition debrief (result : ITestResult) (cleanup : bool) (this : Test)
  : M (Test * Promise unit) :=
  now ← Date_toISOString;
  let result := set_stats (Some (spread_with (r_stats result) "last" (JStr now))) result in
  this' ← build result cleanup (Some this);
  _ ← emit (getId this') "debriefed";
  mret (this', Resolved ()).

(** The [Status | false] argument of [render] and [persist]. *)
Inductive StatusOrFalse :=
  | keep_status                  (* false *)
  | force_status (s : Status).

(** [Nugget.defaults] is not among the sources, and what it keeps of a
    result (the comment of [resetResult] has it remove the feedback of a
    run, the comments of [render] and [persist] have it set a status on
    every test) is not settled by them: [persist] and [render] take it as
    it comes. *)
Class Defaults := defaults : ITestResult -> StatusOrFalse -> ITestResult.

(** [Test.persist]; an omitted argument takes the default ['idle']. *)
Definition persist `{Defaults} (status : option StatusOrFalse) (this : Test)
  : ITestResult :=
  defaults (this_result this) (default (force_status st_idle) status).

(** What a property of a payload sent to the renderer can hold. *)
Inductive Field :=
  | FValue (v : JsValue)
  | FStatus (s : Status)
  | FProps (o : JsProps)
  | FArray (l : list JsValue)
  | FTests (ts : list ITestResult).

(** The own properties of a result object, in the order of the interface. *)
Definition properties (r : ITestResult) : list (string * Field) :=
  omap (fun kv => pair kv.1 <$> kv.2)
    [ ("id", FValue ∘ JStr <$> r_id r);
      ("name", FValue ∘ JStr <$> r_name r);
      ("displayName", (fun d => FValue (from_option JStr JNull d)) <$> r_displayName r);
      ("status", FStatus <$> r_status r);
      ("feedback", FValue <$> r_feedback r);
      ("console", FArray <$> r_console r);
      ("params", FValue ∘ JStr <$> r_params r);
      ("stats", FProps <$> r_stats r);
      ("isLast", FValue ∘ JBool <$> r_isLast r);
      ("tests", FTests <$> r_tests r);
      ("hasChildren", FValue ∘ JBool <$> r_hasChildren r) ].

Definition toObject (r : ITestResult) : gmap string Field :=
  list_to_map (properties r).

(** lodash's [omit(object, key)] *)
Definition omit (o : gmap string Field) (key : string) : gmap string Field :=
  delete key o.

(** [Test.render] *)
Definition render `{Defaults} (status : option StatusOrFalse) (this : Test)
  : gmap string Field :=
  omit (<["partial" := FValue (JBool (partial this))]>
          (<["selected" := FValue (JBool (selected this))]>
             (<["hasChildren" := FValue (JBool (hasChildren this))]>
                (toObject (defaults (this_result this)
                                    (default (force_status st_idle) status))))))
       "tests".

(** ** Sample data *)

Definition leaf (ident : string) (s : option Status) : ITestResult :=
  mkResult (Some ident) (Some ident) None s None None None None None None None.

Definition group (ident : string) (children : list ITestResult) : ITestResult :=
  mkResult (Some ident) (Some ident) None None None None None None None
           (Some children) None.

Definition world0 : World := mkWorld (fun n => "t" +:+ pretty n) 0 [].

(** A suite with the tests A (passed) and B (failed), as first built. *)
Definition suiteAB_payload : ITestResult :=
  group "S" [leaf "A" (Some st_passed); leaf "B" (Some st_failed)].
Definition suiteAB : Test := (newTest suiteAB_payload world0).1.
Definition world1 : World := (newTest suiteAB_payload world0).2.

(** A result that carries a first-seen date of its own, and a malformed
    payload: no id, no name. *)
Definition seen (ident first : string) : ITestResult :=
  set_stats (Some {[ "first" := JStr first ]}) (leaf ident (Some st_passed)).


(** The test A after its first run. *)
Definition testA : Test := (newTest (leaf "A" (Some st_passed)) world0).1.
Definition worldA : World := (newTest (leaf "A" (Some st_passed)) world0).2.

(** The payload of a selective run of A alone. *)
Definition onlyA_payload : ITestResult := group "S" [leaf "A" (Some st_passed)].

(** ** Looking entities up from the renderer's requests ([main/index.ts]) *)

(** The project, repository, framework and nugget classes are not among the
    sources; [entities] only uses the lookups below, which are kept abstract.
    A lookup answers [None] for JavaScript's [undefined]. *)
Class Frameworks (Project Repository Framework Nugget Rendered : Type) := {
  getContextByFrameworkId : Project -> string -> option (Repository * Framework);
  getSuiteById : Framework -> string -> option Nugget;
  nuggetFindTest : Nugget -> string -> option Nugget;
  isExpanded : Nugget -> bool;
  (* [toggleExpanded(true, false)], awaited; the nugget is changed in place *)
  expand : Nugget -> Nugget;
  renderRepository : Repository -> Rendered;
  renderFramework : Framework -> Rendered;
  (* [nugget.render(false)] *)
  renderNugget : Nugget -> Rendered
}.

Section Entities.

Context {Project Repository Framework Nugget Rendered : Type}.
Context `{!Frameworks Project Repository Framework Nugget Rendered}.

Record ProjectEntities := mkEntities {
  e_project : Project;
  e_repository : Repository;
  e_framework : Framework;
  e_nuggets : option (list Nugget);
  e_nugget : option Nugget
}.

(** The [do ... while (identifiers.length > 0)] loop. It is entered with a
    non-empty list: [identifier] is what [identifiers.shift()] takes off,
    [identifiers] what is left. [None] stands for [throw Error]. *)
Fixpoint walk (framework : Framework) (nugget : option Nugget)
    (identifier : string) (identifiers : list string) (nuggets : list Nugget)
  : option (list Nugget * Nugget) :=
  (* First nugget is always a suite, all others are tests. *)
  let found := match nugget with
               | Some n => nuggetFindTest n identifier
               | None => getSuiteById framework identifier
               end in
  match found with
  | None => None
  | Some n =>
      let n := if isExpanded n then n else expand n in
      let nuggets := nuggets ++ [n] in
      match identifiers with
      | [] => Some (nuggets, n)
      | identifier' :: identifiers' =>
          walk framework (Some n) identifier' identifiers' nuggets
      end
  end.

(** [entities(event, frameworkId, identifiers)]. [project] is what
    [getProject(event)] gives, [None] when the window has no project (the
    property access then throws inside the [try]). Every exception is
    swallowed by the [catch], after which the promise is rejected. *)
Definition entities (project : option Project) (frameworkId : string)
    (identifiers : list string) : Promise ProjectEntities :=
  match project with
  | None => Rejected
  | Some project =>
      match getContextByFrameworkId project frameworkId with
      | None => Rejected
      | Some (repository, framework) =>
          match identifiers with
          | [] => Resolved (mkEntities project repository framework None None)
          | identifier :: identifiers =>
              match walk framework None identifier identifiers [] with
              | None => Rejected
              | Some (nuggets, nugget) =>
                  Resolved (mkEntities project repository framework
                              (Some nuggets) (Some nugget))
              end
          end
      end
  end.

(** What the ['test-get'] handler answers. *)
Inductive TestGetReply :=
  | Found (repository framework : Rendered) (nuggets : list Rendered)
          (nugget : Rendered)
  | NullFrameworkAndNuggets.        (* { framework: null, nuggets: null } *)

(** [ipcMain.handle('test-get', ...)]: a rejected [entities], and the
    [TypeError] of [nuggets!.map] on an absent list, end in the [catch]. *)
Definition test_get (project : option Project) (frameworkId : string)
    (identifiers : list string) : TestGetReply :=
  match entities project frameworkId identifiers with
  | Rejected => NullFrameworkAndNuggets
  | Resolved e =>
      match e_nuggets e, e_nugget e with
      | Some nuggets, Some nugget =>
          Found (renderRepository (e_repository e))
                (renderFramework (e_framework e))
                (renderNugget <$> nuggets) (renderNugget nugget)
      | _, _ => NullFrameworkAndNuggets
      end
  end.

(** The requested path exists in the tree: every identifier is found in
    turn, the first among the framework's suites and each next one among
    the tests of the (expanded) nugget found before it. *)
Inductive Reaches (framework : Framework) : option Nugget -> list string -> list Nugget -> Prop :=
  | reaches_nil from : Reaches framework from [] []
  | reaches_suite i ids s ns :
      getSuiteById framework i = Some s ->
      Reaches framework (Some (if isExpanded s then s else expand s)) ids ns ->
      Reaches framework None (i :: ids)
              ((if isExpanded s then s else expand s) :: ns)
  | reaches_test parent i ids t ns :
      nuggetFindTest parent i = Some t ->
      Reaches framework (Some (if isExpanded t then t else expand t)) ids ns ->
      Reaches framework (Some parent) (i :: ids)
              ((if isExpanded t then t else expand t) :: ns).

(** Some requested entity does not exist: the window has no project, the
    framework id names no framework, or the identifiers name no path. *)
Definition Missing (project : option Project) (frameworkId : string)
    (identifiers : list string) : Prop :=
  match project with
  | None => True
  | Some project =>
      match getContextByFrameworkId project frameworkId with
      | None => True
      | Some (_, framework) => ~ exists ns, Reaches framework None identifiers ns
      end
  end.

End Entities.

Arguments ProjectEntities : clear implicits.
Arguments TestGetReply : clear implicits.

(** ** The [SSH] class ([main/lib/process/ssh.ts]) *)

(** The [options] object of [SSHOptions]; an absent key is [None]. *)
Record SSHFlags := mkFlags {
  BatchMode : option string;
  Compression : option string;
  DSAAuthentication : option string;
  LogLevel : option string;
  StrictHostKeyChecking : option string;
  UserKnownHostsFile : option string;
  ForwardAgent : option string;
  IdentitiesOnly : option string;
  ControlMaster : option string;
  ExitOnForwardFailure : option string;
  ConnectTimeout : option Z
}.

Record SSHOptions := mkSSHOptions {
  host : string;
  user : option string;
  port : option Z;
  Identity : option string;
  options : option SSHFlags
}.

Definition SSH_defaults : SSHOptions :=
  mkSSHOptions "" (Some "")  None None
    (Some (mkFlags (Some "yes") (Some "yes") (Some "yes") (Some "FATAL") (Some "no")
                   (Some "/dev/null") (Some "yes") (Some "yes") (Some "no")
                   (Some "yes") (Some 10%Z))).

(** How the evaluation of an expression ends. *)
Inductive JsError := TypeError.

Inductive Completion (A : Type) :=
  | Normal (a : A)
  | Throw (e : JsError).
Arguments Normal {A} a.
Arguments Throw {A} e.

#[global] Instance Completion_ret : MRet Completion := fun A a => Normal a.
#[global] Instance Completion_bind : MBind Completion :=
  fun A B k c => match c with Normal a => k a | Throw e => Throw e end.

(** A key of the later spread wins where it is present. *)
Definition later {A} (earlier newer : option A) : option A :=
  match newer with
  | Some _ => newer
  | None => earlier
  end.

(** [{ ...a, ...b }] on flag objects *)
Definition spread_flags (a b : SSHFlags) : SSHFlags :=
  mkFlags (later (BatchMode a) (BatchMode b))
          (later (Compression a) (Compression b))
          (later (DSAAuthentication a) (DSAAuthentication b))
          (later (LogLevel a) (LogLevel b))
          (later (StrictHostKeyChecking a) (StrictHostKeyChecking b))
          (later (UserKnownHostsFile a) (UserKnownHostsFile b))
          (later (ForwardAgent a) (ForwardAgent b))
          (later (IdentitiesOnly a) (IdentitiesOnly b))
          (later (ControlMaster a) (ControlMaster b))
          (later (ExitOnForwardFailure a) (ExitOnForwardFailure b))
          (later (ConnectTimeout a) (ConnectTimeout b)).

Definition no_flags : SSHFlags :=
  mkFlags None None None None None None None None None None None.

(** [{ ...a, ...connection!, options: o }]: spreading [undefined] adds nothing. *)
Definition spread_connection (a : SSHOptions) (connection : option SSHOptions)
    (o : SSHFlags) : SSHOptions :=
  match connection with
  | None => mkSSHOptions (host a) (user a) (port a) (Identity a) (Some o)
  | Some c => mkSSHOptions (host c) (later (user a) (user c)) (later (port a) (port c))
                           (later (Identity a) (Identity c)) (Some o)
  end.

(** [connection!.options]: the non-null assertion is erased by the compiler,
    so reading a property of [undefined] throws. *)
Definition read_options (connection : option SSHOptions) : Completion (option SSHFlags) :=
  match connection with
  | None => Throw TypeError
  | Some c => Normal (options c)
  end.

(** The state of an [SSH] object: its [connection] field. *)
Record SSH := mkSSH { connection : option SSHOptions }.

(** [this.connection = c] *)
Definition assign_connection (this : SSH) (c : SSHOptions) : SSH := mkSSH (Some c).

(** [SSH.constructor]. The statements run in order on the object under
    construction; a completion other than [Normal] leaves no instance. *)
Definition SSH_constructor (conn : option SSHOptions) : Completion SSH :=
  let this := mkSSH None in
  let this := match conn with
              | None => mkSSH (Some SSH_defaults)      (* if (!connection) ... *)
              | Some _ => this
              end in
  given ← read_options conn;
  let merged := spread_flags (default no_flags (options SSH_defaults))
                             (default no_flags given) in
  mret (assign_connection this (spread_connection SSH_defaults conn merged)).

(** ** Observations on result trees and a concrete tree of nuggets *)



(** The names a payload sent to the renderer may use. *)
Definition render_keys : list string :=
  [ "id"; "name"; "displayName"; "status"; "feedback"; "console"; "params";
    "stats"; "isLast"; "hasChildren"; "selected"; "partial" ].

(** A project with one repository, whose frameworks are lists of suites
    named by an id; nuggets are [Test] nodes looked up by their id. In this
    tree a nugget is rendered from its result as it is. *)
Definition sample_defaults : Defaults := fun result _ => result.

Definition find_by_id (tests : list Test) (ident : string) : option Test :=
  snd <$> findTest tests (Some ident).

#[global] Instance TreeFrameworks
  : Frameworks (list (string * list Test)) unit (list Test) Test (gmap string Field) := {
  getContextByFrameworkId project frameworkId :=
    pair () <$> (snd <$> list_find (fun f => f.1 = frameworkId) project ≫= Some ∘ snd);
  getSuiteById framework ident := find_by_id framework ident;
  nuggetFindTest nugget ident := find_by_id (this_tests nugget) ident;
  isExpanded := expanded;
  expand nugget := mkTest (this_status nugget) (this_result nugget) (selected nugget)
                          true (partial nugget) (this_tests nugget);
  renderRepository _ := ∅;
  renderFramework _ := ∅;
  renderNugget := @render sample_defaults (Some keep_status)
}.

(** ** Quoting the arguments of a remote command ([SSH.sanitize]) *)

(** [arg.replace(/\\/g, "'\\\\'")]: every backslash becomes the four
    characters quote, backslash, backslash, quote. *)
Fixpoint quote_backslashes (arg : string) : string :=
  match arg with
  | EmptyString => EmptyString
  | String c rest =>
      if Ascii.eqb c "\"%char then "'\\'" +:+ quote_backslashes rest
      else String c (quote_backslashes rest)
  end.

(** [arg.replace(/\|/, "'\|'")]: the expression has no [g] flag, so the
    first pipe only is replaced, by quote, pipe, quote. *)
Fixpoint quote_first_pipe (arg : string) : string :=
  match arg with
  | EmptyString => EmptyString
  | String c rest =>
      if Ascii.eqb c "|"%char then "'|'" +:+ rest
      else String c (quote_first_pipe rest)
  end.

(** [SSH.sanitize] *)
Definition sanitize (arg : string) : string :=
  quote_first_pipe (quote_backslashes arg).

(** Whether a character occurs in a string. *)
Fixpoint occurs (c : Ascii.ascii) (s : string) : bool :=
  match s with
  | EmptyString => false
  | String c' rest => Ascii.eqb c' c || occurs c rest
  end.

(** ** Other handlers of the main process *)

Section Handlers.

Context {Project Repository Framework Nugget Rendered : Type}.
Context `{!Frameworks Project Repository Framework Nugget Rendered}.

(** What the ['nugget-context-menu'] handler opens. The arguments are what
    [shift()] and [pop()] give, [None] for [undefined]. *)
Inductive MenuOpened :=
  | OpenSuiteMenu (suite : option Nugget)
  | OpenTestMenu (suite test : option Nugget).

(** [nuggets.shift()]: the first element and what is left. *)
Definition shift (nuggets : list Nugget) : option Nugget * list Nugget :=
  match nuggets with
  | [] => (None, [])
  | n :: rest => (Some n, rest)
  end.

(** [nuggets.pop()]: the last element. *)
Definition pop (nuggets : list Nugget) : option Nugget := last nuggets.

(** [ipcMain.on('nugget-context-menu', ...)]: the callback of [then] runs
    when [entities] resolves; a rejection opens nothing. *)
Definition nugget_context_menu (project : option Project) (frameworkId : string)
    (identifiers : list string) : option MenuOpened :=
  match entities project frameworkId identifiers with
  | Rejected => None
  | Resolved e =>
      match e_nuggets e with
      | None => None
      | Some nuggets =>
          if Nat.eqb (length nuggets) 1 then Some (OpenSuiteMenu (pop nuggets))
          else let (suite, rest) := shift nuggets in
               Some (OpenTestMenu suite (pop rest))
      end
  end.

End Handlers.

Arguments MenuOpened : clear implicits.

(** A project with the sample suite, and the nuggets on the path to test A. *)
Definition sample_project : list (string * list Test) := [("phpunit", [suiteAB])].

Definition sample_path : list Test :=
  match this_tests suiteAB with
  | a :: _ => [expand suiteAB; expand a]
  | [] => []
  end.

(** ** The modal store of the renderer ([renderer/store/modules/modal.js]) *)

(** What the [callback] property of a modal payload holds: a function (named
    by a number; calling it is recorded, it is taken not to throw and not to
    touch this store) or a value that is no function. *)
Inductive Callback :=
  | cb_function (f : nat)
  | cb_value (v : JsValue).

(** A modal payload: an object with a name and, possibly, a [callback]. *)
Record Modal := mkModal {
  modal_name : string;
  callback : option Callback
}.

(** The state of the module, with the two things its code acts on outside
    of it: the callbacks called so far, oldest first, and whether the
    document body has the class [modal-open]. *)
Record ModalStore := mkStore {
  modals : list Modal;
  called : list nat;
  modal_open : bool
}.

(** [mutations.ADD] *)
Definition ADD (payload : Modal) (state : ModalStore) : ModalStore :=
  mkStore (modals state ++ [payload]) (called state) (modal_open state).

(** [mutations.REMOVE]. [pop()] of an empty array gives [undefined], which
    has no [callback]. A truthy callback is called; calling what is not a
    function throws, after the modal has been taken off. *)
Definition REMOVE (state : ModalStore) : ModalStore * Completion unit :=
  match last (modals state) with
  | None => (state, Normal ())
  | Some modal =>
      let popped := take (length (modals state) - 1) (modals state) in
      match callback modal with
      | Some (cb_function f) =>
          (mkStore popped (called state ++ [f]) (modal_open state), Normal ())
      | Some (cb_value v) =>
          (mkStore popped (called state) (modal_open state),
           if truthy v then Throw TypeError else Normal ())
      | None => (mkStore popped (called state) (modal_open state), Normal ())
      end
  end.

(** [mutations.CLEAR] *)
Definition CLEAR (state : ModalStore) : ModalStore :=
  mkStore [] (called state) (modal_open state).

(** [getters.hasModals] *)
Definition hasModals (state : ModalStore) : bool :=
  Nat.ltb 0 (length (modals state)).

(** [actions.change]: the body gets or loses the class [modal-open]. *)
Definition change (state : ModalStore) : ModalStore :=
  mkStore (modals state) (called state)
          (negb (Nat.eqb (length (modals state)) 0)).

(** [actions.open], [actions.close], [actions.clear]: a mutation, then
    [change]; a mutation that throws ends the action there. *)
Definition open_modal (payload : Modal) (state : ModalStore)
  : ModalStore * Completion unit :=
  (change (ADD payload state), Normal ()).

Definition close_modal (state : ModalStore) : ModalStore * Completion unit :=
  match REMOVE state with
  | (state', Normal _) => (change state', Normal ())
  | (state', Throw e) => (state', Throw e)
  end.

Definition clear_modals (state : ModalStore) : ModalStore * Completion unit :=
  (change (CLEAR state), Normal ()).

Inductive ModalAction :=
  | Open (payload : Modal)
  | Close
  | Clear.

Definition dispatch (action : ModalAction) (state : ModalStore)
  : ModalStore * Completion unit :=
  match action with
  | Open payload => open_modal payload state
  | Close => close_modal state
  | Clear => clear_modals state
  end.

(** Actions dispatched one after the other, up to the first that throws. *)
Fixpoint dispatch_all (actions : list ModalAction) (state : ModalStore)
  : ModalStore * Completion unit :=
  match actions with
  | [] => (state, Normal ())
  | action :: rest =>
      match dispatch action state with
      | (state', Normal _) => dispatch_all rest state'
      | (state', Throw e) => (state', Throw e)
      end
  end.

(** The payload's callback can be called: it is absent, falsy or a function. *)
Definition closes_quietly (payload : Modal) : bool :=
  match callback payload with
  | Some (cb_value v) => negb (truthy v)
  | _ => true
  end.

(** The functions that closing the modals calls, one per modal that has one. *)
Definition callback_of (payload : Modal) : list nat :=
  match callback payload with
  | Some (cb_function f) => [f]
  | _ => []
  end.

(** Sample modals: one with a callback function, one without a callback and
    one whose callback is a string. *)
Definition confirm_modal : Modal := mkModal "ConfirmRemove" (Some (cb_function 7)).
Definition about_modal : Modal := mkModal "About" None.
Definition broken_modal : Modal := mkModal "Broken" (Some (cb_value (JStr "done"))).
Definition empty_store : ModalStore := mkStore [] [] false.

(** ** Switching projects (['project-switch'], [ApplicationWindow]) *)

(** What the handler does to the outside, in order. The [Project] class is
    not among the sources: a project is known here by the identifier it was
    made from. *)
Inductive WindowEffect :=
  | SentToRenderer (channel : string)
  | CurrentProjectStored (identifier : JsProps)
  | ProjectStopped (identifier : JsProps).

(** The [project] field of an [ApplicationWindow]. *)
Record AppWindow := mkWindow { window_project : option JsProps }.

(** [ApplicationWindow.setProject]: a new project made from the identifier. *)
Definition setProject (identifier : JsProps) (window : AppWindow) : AppWindow :=
  mkWindow (Some identifier).

(** [ApplicationWindow.clear]: forget the project, refresh the settings,
    tell the renderer. *)
Definition clear_window (window : AppWindow) : AppWindow * list WindowEffect :=
  (mkWindow None, [SentToRenderer "settings-updated"; SentToRenderer "clear"]).

(** lodash's [pickBy(object, identity)] and [isEmpty] on a plain object. *)
Definition pickBy_identity (object : JsProps) : JsProps :=
  filter (fun kv => truthy kv.2 = true) object.

Definition isEmpty (object : JsProps) : bool := Nat.eqb (size object) 0.

(** [ipcMain.on('project-switch', ...)]. [window] is what
    [getFromWebContents] gives; the handler reads its project without a
    check. An absent identifier is [None]. *)
Definition project_switch (window : option AppWindow) (identifier : option JsProps)
  : Completion (AppWindow * list WindowEffect) :=
  match window with
  | None => Throw TypeError
  | Some window =>
      let project := window_project window in
      let (window', effects) :=
        match identifier with
        | Some i =>
            if negb (isEmpty (pickBy_identity i))
            then (setProject i window, [CurrentProjectStored i])
            else clear_window window
        | None => clear_window window
        end in
      Normal (window',
              effects ++ match project with
                         | Some old => [ProjectStopped old]
                         | None => []
                         end)
  end.

(** The identifier names nothing: it is absent or all its values are falsy. *)
Definition blank (identifier : option JsProps) : Prop :=
  match identifier with
  | None => True
  | Some i => forall key v, i !! key = Some v -> truthy v = false
  end.

(** Sample identifiers: one with an id, one whose fields are all empty. *)
Definition named_identifier : JsProps :=
  {[ "id" := JStr "b9e1"; "name" := JStr "Lode" ]}.
Definition blank_identifier : JsProps :=
  {[ "id" := JStr ""; "name" := JNull ]}.



(** ** [Test.debrief] on any payload, over any [Nugget] *)








(** * Properties *)

(** ** Induction over result trees *)


(** ** Status aggregation *)

Lemma higher_comm a b : higher a b = higher b a.
Proof. destruct a, b; reflexivity. Qed.

Lemma higher_assoc a b c : higher a (higher b c) = higher (higher a b) c.
Proof. destruct a, b, c; reflexivity. Qed.

Lemma higher_idem a : higher a a = a.
Proof. destruct a; reflexivity. Qed.

Lemma higher_empty_r a : higher a st_empty = a.
Proof. destruct a; reflexivity. Qed.

Lemma parseStatus_cons s l : parseStatus (s :: l) = higher s (parseStatus l).
Proof. reflexivity. Qed.

Lemma parseStatus_Permutation l l' :
  Permutation l l' -> parseStatus l = parseStatus l'.
Proof.
  induction 1 as [|x l l' _ IH|x y l|l l' l'' _ IH1 _ IH2].
  - reflexivity.
  - rewrite !parseStatus_cons. by rewrite IH.
  - rewrite !parseStatus_cons, !higher_assoc. by rewrite (higher_comm y x).
  - by rewrite IH1.
Qed.

Lemma parseStatus_absorbs l : parseStatus (parseStatus l :: l) = parseStatus l.
Proof. rewrite parseStatus_cons. apply higher_idem. Qed.

(** C5. Aggregation is a function of the multiset of child statuses: any two
    orderings of the same statuses aggregate to the same parent status, and
    aggregating again, with the status just computed put back among the
    children or taken alone, yields that same status. *)
Theorem aggregation_order_independent_idempotent :
  forall l l' : list Status,
    Permutation l l' ->
    parseStatus l = parseStatus l'
    /\ parseStatus (parseStatus l :: l') = parseStatus l
    /\ parseStatus [parseStatus l] = parseStatus l.
Proof.
  intros l l' Hperm. split; [by apply parseStatus_Permutation|]. split.
  - transitivity (parseStatus (parseStatus l :: l)).
    + apply parseStatus_Permutation, perm_skip. by symmetry.
    + apply parseStatus_absorbs.
  - simpl. apply higher_empty_r.
Qed.

Lemma aggregation_order_independent_idempotent_witness :
  Permutation [st_passed; st_warning; st_idle] [st_idle; st_passed; st_warning]
  /\ parseStatus [st_passed; st_warning; st_idle] = st_warning
  /\ parseStatus [st_idle; st_passed; st_warning] = st_warning.
Proof.
  assert (Hp : Permutation [st_passed; st_warning; st_idle]
                           [st_idle; st_passed; st_warning]).
  { change (Permutation ([st_passed; st_warning] ++ [st_idle])
                        ([st_idle] ++ [st_passed; st_warning])).
    apply Permutation_app_comm. }
  split; [exact Hp|].
  pose proof (aggregation_order_independent_idempotent _ _ Hp) as (H1 & _ & _).
  split; [reflexivity | rewrite <- H1; reflexivity].
Defined.

(** ** Persisting and rendering *)

Lemma properties_tests_only r k ts :
  (k, FTests ts) ∈ properties r -> k = "tests".
Proof.
  unfold properties. intros Hin.
  apply list_elem_of_omap in Hin as ([k' v] & Hin & Hv).
  simpl in Hv.
  repeat (apply elem_of_cons in Hin as [Heq|Hin];
          [injection Heq as -> ->;
           match type of Hv with
           | context [ _ <$> ?o ] => destruct o; simpl in Hv; try discriminate;
                                      injection Hv as -> ?; try discriminate
           end; reflexivity|]).
  by apply elem_of_nil in Hin.
Qed.

Lemma properties_keys r k v :
  (k, v) ∈ properties r -> k = "tests" \/ k ∈ render_keys.
Proof.
  unfold properties. intros Hin.
  apply list_elem_of_omap in Hin as ([k' v'] & Hin & Hv).
  simpl in Hv.
  assert (k' = k) as ->.
  { destruct v'; simpl in Hv; [by injection Hv | discriminate]. }
  clear Hv.
  repeat (apply elem_of_cons in Hin as [Heq|Hin];
          [injection Heq as -> _; unfold render_keys;
           first [by left | right; solve [repeat constructor]]|]).
  by apply elem_of_nil in Hin.
Qed.

(** C7. The payload of [render] has no [tests] property and no property that
    holds child results; it carries the [hasChildren], [selected] and
    [partial] flags of the node, and all its properties are among twelve
    fixed names, whatever the depth of the tree and whatever [defaults]
    makes of the result. *)
Theorem render_omits_tests :
  forall (D : Defaults) (status : option StatusOrFalse) (this : Test),
    render status this !! "tests" = None
    /\ (forall k ts, render status this !! k <> Some (FTests ts))
    /\ render status this !! "hasChildren" = Some (FValue (JBool (hasChildren this)))
    /\ render status this !! "selected" = Some (FValue (JBool (selected this)))
    /\ render status this !! "partial" = Some (FValue (JBool (partial this)))
    /\ (forall k, is_Some (render status this !! k) -> k ∈ render_keys)
    /\ size (render status this) <= 12.
Proof.
  intros D status this. unfold render, omit.
  set (o := toObject _).
  assert (Hkeys : forall k v,
             delete "tests" (<["partial" := FValue (JBool (partial this))]>
               (<["selected" := FValue (JBool (selected this))]>
                 (<["hasChildren" := FValue (JBool (hasChildren this))]> o))) !! k
             = Some v ->
             k <> "tests" /\
             (k = "partial" /\ v = FValue (JBool (partial this))
              \/ k = "selected" /\ v = FValue (JBool (selected this))
              \/ k = "hasChildren" /\ v = FValue (JBool (hasChildren this))
              \/ o !! k = Some v)).
  { intros k v Hk.
    apply lookup_delete_Some in Hk as [Hne Hk]. split; [done|].
    apply lookup_insert_Some in Hk as [[<- <-]|[_ Hk]]; [by left|].
    apply lookup_insert_Some in Hk as [[<- <-]|[_ Hk]]; [by right; left|].
    apply lookup_insert_Some in Hk as [[<- <-]|[_ Hk]]; [by right; right; left|].
    by right; right; right. }
  assert (Hin : forall k, is_Some
             (delete "tests" (<["partial" := FValue (JBool (partial this))]>
               (<["selected" := FValue (JBool (selected this))]>
                 (<["hasChildren" := FValue (JBool (hasChildren this))]> o))) !! k)
             -> k ∈ render_keys).
  { intros k [v Hk]. apply Hkeys in Hk as [Hne [[-> _]|[[-> _]|[[-> _]|Hk]]]];
      try (unfold render_keys; solve [repeat constructor]).
    apply elem_of_list_to_map_2, properties_keys in Hk as [->|Hk]; done. }
  split; [apply lookup_delete_eq|].
  split.
  { intros k ts Hk. apply Hkeys in Hk as [Hne [[_ ?]|[[_ ?]|[[_ ?]|Hk]]]];
      try discriminate.
    apply elem_of_list_to_map_2, properties_tests_only in Hk. done. }
  split; [by rewrite lookup_delete_ne, lookup_insert_ne, lookup_insert_ne,
            lookup_insert_eq|].
  split; [by rewrite lookup_delete_ne, lookup_insert_ne, lookup_insert_eq|].
  split; [by rewrite lookup_delete_ne, lookup_insert_eq|].
  split; [exact Hin|].
  rewrite <- size_dom.
  transitivity (size (list_to_set render_keys : gset string)).
  - apply subseteq_size. intros k Hk. apply elem_of_dom in Hk.
    apply elem_of_list_to_set. by apply Hin.
  - reflexivity.
Qed.

(** ** Building from a payload without child results *)


Lemma build_leaf result cleanup this w :
  r_tests result = None \/ r_tests result = Some [] ->
  build result cleanup this w =
    (let result1 := set_status (getRecursiveStatus result) result in
     merged ← mergeResults (this_result <$> this) result1;
     mret (updateStatus (default st_idle (r_status result1))
                        (assign_result this merged))) w.
Proof.
  intros Hts. destruct result as [? ? ? ? ? ? ? ? ? tests ?]; simpl in Hts.
  unfold build. simpl.
  destruct Hts as [->| ->]; reflexivity.
Qed.

Lemma build_without_tests_keeps_children_aux result cleanup this w :
  r_tests result = None \/ r_tests result = Some [] ->
  this_tests (build result cleanup (Some this) w).1 = this_tests this
  /\ this_tests (build result cleanup None w).1 = [].
Proof.
  intros Hts. rewrite !build_leaf by exact Hts.
  unfold mbind, M_bind, mret, M_ret; simpl.
  split.
  - destruct (mergeResults _ _ w); reflexivity.
  - destruct (mergeResults _ _ w); reflexivity.
Qed.

(** C9. When the payload's [tests] is absent or an empty array, [build]
    leaves the children of the node as they are, with or without [cleanup]:
    none is merged, none is removed. A node under construction gets none. *)
Theorem build_without_tests_keeps_children :
  forall (result : ITestResult) (cleanup : bool) (this : Test) (w : World),
    r_tests result = None \/ r_tests result = Some [] ->
    this_tests (build result cleanup (Some this) w).1 = this_tests this
    /\ this_tests (build result cleanup None w).1 = [].
Proof.
  intros result cleanup this w Hts.
  by apply build_without_tests_keeps_children_aux.
Qed.

Lemma build_without_tests_keeps_children_witness :
  this_tests (build (group "S" []) true (Some suiteAB) world1).1 = this_tests suiteAB
  /\ length (this_tests suiteAB) = 2.
Proof.
  split; [|reflexivity].
  apply (build_without_tests_keeps_children (group "S" []) true suiteAB world1).
  right. reflexivity.
Defined.

(** ** The SSH constructor *)

(** C10. Constructing [SSH] without a connection throws a [TypeError]: after
    the defaults are assigned the constructor goes on to read
    [connection!.options]. With a connection it returns an instance. *)
Theorem SSH_constructor_needs_connection :
  SSH_constructor None = Throw TypeError
  /\ (forall conn : SSHOptions, exists ssh, SSH_constructor (Some conn) = Normal ssh)
  /\ (forall conn ssh, SSH_constructor conn = Normal ssh <-> 
        exists c, conn = Some c /\
          ssh = mkSSH (Some (spread_connection SSH_defaults (Some c)
                               (spread_flags (default no_flags (options SSH_defaults))
                                             (default no_flags (options c)))))).
Proof.
  split; [reflexivity|]. split.
  - intros conn. eexists. reflexivity.
  - intros [c|] ssh; split.
    + intros Heq. exists c. split; [reflexivity|].
      unfold SSH_constructor in Heq. simpl in Heq. by injection Heq as <-.
    + intros (c' & [= <-] & ->). reflexivity.
    + discriminate.
    + intros (c' & Hc & _). discriminate.
Qed.

(** ** Looking up entities *)

Section EntitiesProperties.

Context {Project Repository Framework Nugget Rendered : Type}.
Context `{!Frameworks Project Repository Framework Nugget Rendered}.

Lemma Reaches_functional (framework : Framework) from ids ns ns' :
  Reaches framework from ids ns -> Reaches framework from ids ns' -> ns = ns'.
Proof.
  intros H1. revert ns'.
  induction H1 as [from|i ids s ns Hs _ IH|parent i ids t ns Ht _ IH];
    intros ns' H2; inversion H2; subst; try reflexivity.
  - match goal with
    | H : getSuiteById _ _ = Some ?s' |- _ =>
        rewrite Hs in H; injection H as <-
    end.
    f_equal. by apply IH.
  - match goal with
    | H : nuggetFindTest _ _ = Some ?t' |- _ =>
        rewrite Ht in H; injection H as <-
    end.
    f_equal. by apply IH.
Qed.

Lemma Reaches_length (framework : Framework) from ids ns :
  Reaches framework from ids ns -> length ns = length ids.
Proof. induction 1; simpl; congruence. Qed.

(** The loop finds exactly the paths that exist. *)
Lemma walk_Some (framework : Framework) ids : forall from i acc ns n,
  walk framework from i ids acc = Some (ns, n) ->
  exists ns', Reaches framework from (i :: ids) ns'
              /\ ns = acc ++ ns' /\ last ns' = Some n.
Proof.
  induction ids as [|j ids IH]; intros from i acc ns n Hw; simpl in Hw.
  - destruct from as [p|].
    + destruct (nuggetFindTest p i) as [t|] eqn:Ht; [|discriminate].
      injection Hw as <- <-. eexists. split; [|split; reflexivity].
      eapply reaches_test; [exact Ht | constructor].
    + destruct (getSuiteById framework i) as [s|] eqn:Hs; [|discriminate].
      injection Hw as <- <-. eexists. split; [|split; reflexivity].
      eapply reaches_suite; [exact Hs | constructor].
  - destruct from as [p|].
    + destruct (nuggetFindTest p i) as [t|] eqn:Ht; [|discriminate].
      apply IH in Hw as (ns' & Hr & -> & Hl).
      exists ((if isExpanded t then t else expand t) :: ns').
      split; [by eapply reaches_test|]. split; [by rewrite <- app_assoc|].
      inversion Hr; subst; exact Hl.
    + destruct (getSuiteById framework i) as [s|] eqn:Hs; [|discriminate].
      apply IH in Hw as (ns' & Hr & -> & Hl).
      exists ((if isExpanded s then s else expand s) :: ns').
      split; [by eapply reaches_suite|]. split; [by rewrite <- app_assoc|].
      inversion Hr; subst; exact Hl.
Qed.

Lemma walk_None (framework : Framework) ids : forall from i acc,
  walk framework from i ids acc = None ->
  ~ exists ns, Reaches framework from (i :: ids) ns.
Proof.
  induction ids as [|j ids IH]; intros from i acc Hw [ns Hr]; simpl in Hw.
  - inversion Hr; subst;
      match goal with H : _ = Some _ |- _ => rewrite H in Hw end; discriminate.
  - inversion Hr; subst;
      match goal with H : _ = Some _ |- _ => rewrite H in Hw end;
      (eapply IH; [exact Hw | eauto]).
Qed.

Lemma walk_missing (framework : Framework) from i ids acc :
  (~ exists ns, Reaches framework from (i :: ids) ns) ->
  walk framework from i ids acc = None.
Proof.
  intros Hno. destruct (walk framework from i ids acc) as [[ns n]|] eqn:Hw;
    [|reflexivity].
  apply walk_Some in Hw as (ns' & Hr & _). exfalso. eauto.
Qed.

(** C8. When a requested entity does not exist (no project, no framework
    with the given id, or an identifier that is not found along the path)
    the [entities] promise rejects and the ['test-get'] handler answers
    with a null framework and null nuggets. When [entities] resolves for a
    non-empty path, its nuggets are the ones found along that path in the
    current tree, one per identifier, and its nugget is the last of them. *)
Theorem entities_signals_missing :
  forall (project : option Project) (frameworkId : string) (identifiers : list string),
    (Missing project frameworkId identifiers ->
       entities project frameworkId identifiers = Rejected
       /\ test_get project frameworkId identifiers = NullFrameworkAndNuggets)
    /\ (forall e, entities project frameworkId identifiers = Resolved e ->
          identifiers <> [] ->
          exists ns n, e_nuggets e = Some ns /\ e_nugget e = Some n
                       /\ Reaches (e_framework e) None identifiers ns
                       /\ length ns = length identifiers
                       /\ last ns = Some n).
Proof.
  intros project frameworkId identifiers. split.
  - intros Hmiss.
    assert (entities project frameworkId identifiers = Rejected) as Hrej.
    { unfold entities, Missing in *.
      destruct project as [p|]; [|reflexivity].
      destruct (getContextByFrameworkId p frameworkId) as [[repo fw]|];
        [|reflexivity].
      destruct identifiers as [|i ids].
      - exfalso. apply Hmiss. eexists. constructor.
      - by rewrite walk_missing. }
    split; [exact Hrej|]. unfold test_get. by rewrite Hrej.
  - intros e He Hne. unfold entities in He.
    destruct project as [p|]; [|discriminate].
    destruct (getContextByFrameworkId p frameworkId) as [[repo fw]|];
      [|discriminate].
    destruct identifiers as [|i ids]; [done|].
    destruct (walk fw None i ids []) as [[ns n]|] eqn:Hw; [|discriminate].
    injection He as <-. simpl.
    apply walk_Some in Hw as (ns' & Hr & -> & Hl). simpl.
    exists ns', n. repeat split; try done.
    by apply (Reaches_length _ _ _ _ Hr).
Qed.

End EntitiesProperties.

Lemma entities_signals_missing_witness :
  entities (Some [("phpunit", [suiteAB])]) "phpunit" ["S"; "C"] = Rejected
  /\ test_get (Some [("phpunit", [suiteAB])]) "phpunit" ["S"; "C"]
     = NullFrameworkAndNuggets.
Proof.
  apply (proj1 (entities_signals_missing
                  (Some [("phpunit", [suiteAB])]) "phpunit" ["S"; "C"])).
  unfold Missing.
  change (getContextByFrameworkId [("phpunit", [suiteAB])] "phpunit")
    with (Some ((), [suiteAB])).
  apply (walk_None [suiteAB] ["C"] None "S" []).
  vm_compute. reflexivity.
Defined.

(** ** Merging results: the first-seen and last-run dates *)

Lemma build_node result cleanup this w x xs :
  r_tests result = Some (x :: xs) ->
  build result cleanup this w =
    (let result1 := set_status (getRecursiveStatus result) result in
     merged ← mergeResults (this_result <$> this) result1;
     debriefTests build cleanup (x :: xs)
       (updateStatus (default st_idle (r_status result1))
                     (assign_result this merged))) w.
Proof.
  intros Hts. destruct result as [? ? ? ? ? ? ? ? ? tests ?]; simpl in Hts.
  subst tests. reflexivity.
Qed.

#[global] Arguments build : simpl never.
#[global] Arguments getRecursiveStatus : simpl never.

Lemma debriefTests_result b cleanup tests this w :
  exists tests',
    this_result (debriefTests b cleanup tests this w).1
    = set_tests (Some tests') (this_result this).
Proof.
  unfold debriefTests, mbind, M_bind, mret, M_ret.
  destruct (mergeTests b cleanup tests (this_tests this) w) as [[children tests'] w'].
  simpl. by exists tests'.
Qed.

Lemma this_result_assign this merged s :
  this_result (updateStatus s (assign_result this merged)) = merged.
Proof. by destruct this. Qed.

(** [build] keeps the stats that [mergeResults] computed. *)
Lemma build_stats result cleanup this w :
  r_stats (this_result (build result cleanup this w).1)
  = r_stats (mergeResults (this_result <$> this)
                          (set_status (getRecursiveStatus result) result) w).1.
Proof.
  destruct (r_tests result) as [[|x xs]|] eqn:Hts.
  - rewrite build_leaf by auto. unfold mbind, M_bind, mret, M_ret; cbv zeta.
    destruct (mergeResults _ _ w) as [merged w'].
    cbn [fst]. by rewrite this_result_assign.
  - rewrite (build_node _ _ _ _ _ _ Hts). unfold mbind, M_bind; cbv zeta.
    destruct (mergeResults _ _ w) as [merged w'].
    match goal with
    | |- context [debriefTests ?b ?c ?ts ?t ?w0] =>
        destruct (debriefTests_result b c ts t w0) as [tests' ->]
    end.
    cbn [fst]. by rewrite this_result_assign.
  - rewrite build_leaf by auto. unfold mbind, M_bind, mret, M_ret; cbv zeta.
    destruct (mergeResults _ _ w) as [merged w'].
    cbn [fst]. by rewrite this_result_assign.
Qed.

Lemma mergeResults_first own result w :
  stats_first (mergeResults own result w).1
  = if truthy (stats_first result) then stats_first result
    else or_default (get_prop (own ≫= r_stats) "first") (JStr (clock w (reads w))).
Proof.
  unfold mergeResults. destruct (truthy (stats_first result)); [reflexivity|].
  unfold mbind, M_bind, mret, M_ret, Date_toISOString, stats_first; simpl.
  unfold spread_with. by rewrite lookup_insert_eq.
Qed.

Lemma mergeResults_last own result w :
  stats_last (mergeResults own result w).1 = stats_last result.
Proof.
  unfold mergeResults. destruct (truthy (stats_first result)); [reflexivity|].
  unfold mbind, M_bind, mret, M_ret, Date_toISOString, stats_last; simpl.
  unfold spread_with. rewrite lookup_insert_ne by done.
  by destruct (r_stats result).
Qed.

Lemma mergeResults_first_defined own result w :
  stats_first result = JUndefined ->
  stats_first (mergeResults own result w).1 <> JUndefined.
Proof.
  intros Hr. rewrite mergeResults_first, Hr. simpl.
  by destruct (get_prop (own ≫= r_stats) "first").
Qed.

(** What a debrief leaves as first-seen and last-run dates. *)
Lemma debrief_dates result cleanup this w :
  let this' := (debrief result cleanup this w).1.1 in
  stats_last (this_result this') = JStr (clock w (reads w))
  /\ stats_first (this_result this')
     = if truthy (stats_first result) then stats_first result
       else or_default (stats_first (this_result this))
                       (JStr (clock w (S (reads w)))).
Proof.
  unfold debrief, mbind, M_bind, mret, M_ret, Date_toISOString, emit; simpl.
  set (stamped := set_stats (Some _) result).
  set (w1 := mkWorld _ _ _).
  pose proof (build_stats stamped cleanup (Some this) w1) as Hstats.
  destruct (build stamped cleanup (Some this) w1) as [this' w2]. simpl in *.
  assert (Hfirst : stats_first stamped = stats_first result).
  { unfold stamped, stats_first, spread_with; simpl.
    rewrite lookup_insert_ne by done. by destruct (r_stats result). }
  assert (Hlast : stats_last stamped = JStr (clock w (reads w))).
  { unfold stamped, stats_last, spread_with; simpl. by rewrite lookup_insert_eq. }
  split.
  - unfold stats_last at 1. rewrite Hstats.
    fold (stats_last (mergeResults (Some (this_result this))
            (set_status (getRecursiveStatus stamped) stamped) w1).1).
    by rewrite mergeResults_last.
  - unfold stats_first at 1. rewrite Hstats.
    fold (stats_first (mergeResults (Some (this_result this))
            (set_status (getRecursiveStatus stamped) stamped) w1).1).
    rewrite mergeResults_first.
    change (stats_first (set_status (getRecursiveStatus stamped) stamped))
      with (stats_first stamped).
    rewrite Hfirst. reflexivity.
Qed.

Lemma debrief_first_defined result cleanup this w :
  stats_first (this_result (debrief result cleanup this w).1.1) <> JUndefined.
Proof.
  destruct (debrief_dates result cleanup this w) as [_ ->].
  destruct (truthy (stats_first result)) eqn:Ht.
  - intros Hu. by rewrite Hu in Ht.
  - by destruct (stats_first (this_result this)).
Qed.

(** C1, as the code has it. A merge lets the first-seen date of the incoming
    result prevail when it carries one; otherwise it takes the date of the
    existing result when that is defined, and the current time when not.
    Hence, when a test is debriefed a second time with a payload that
    carries no first-seen date of its own (or the one the test already
    has), [stats.first] stays what the first debrief left and [stats.last]
    is the time read at the second debrief. *)
Theorem first_seen_kept_unless_given :
  forall (this : Test) (r1 r2 : ITestResult) (c1 c2 : bool) (w : World),
    let d1 := debrief r1 c1 this w in
    let d2 := debrief r2 c2 d1.1.1 d1.2 in
    truthy (stats_first r2) = false
      \/ stats_first r2 = stats_first (this_result d1.1.1) ->
    (forall own result w',
        stats_first (mergeResults own result w').1
        = if truthy (stats_first result) then stats_first result
          else or_default (get_prop (own ≫= r_stats) "first")
                          (JStr (Date_toISOString w').1))
    /\ stats_first (this_result d2.1.1) = stats_first (this_result d1.1.1)
    /\ stats_last (this_result d2.1.1) = JStr (Date_toISOString d1.2).1.
Proof.
  intros this r1 r2 c1 c2 w d1 d2 Hr2.
  split; [intros; apply mergeResults_first|].
  destruct (debrief_dates r2 c2 d1.1.1 d1.2) as [Hlast Hfirst].
  fold d2 in Hlast, Hfirst. split; [|exact Hlast].
  rewrite Hfirst.
  pose proof (debrief_first_defined r1 c1 this w) as Hdef. fold d1 in Hdef.
  destruct Hr2 as [-> | Heq].
  - by destruct (stats_first (this_result d1.1.1)).
  - destruct (truthy (stats_first r2)); [exact Heq|].
    by destruct (stats_first (this_result d1.1.1)).
Qed.

Lemma first_seen_kept_unless_given_witness :
  stats_first (this_result
     (debrief (leaf "A" (Some st_failed)) false
        (debrief (leaf "A" (Some st_passed)) false testA worldA).1.1
        (debrief (leaf "A" (Some st_passed)) false testA worldA).2).1.1)
  = JStr "t0"
  /\ stats_last (this_result
     (debrief (leaf "A" (Some st_failed)) false
        (debrief (leaf "A" (Some st_passed)) false testA worldA).1.1
        (debrief (leaf "A" (Some st_passed)) false testA worldA).2).1.1)
  = JStr "t3".
Proof.
  destruct (first_seen_kept_unless_given testA (leaf "A" (Some st_passed))
              (leaf "A" (Some st_failed)) false false worldA)
    as (_ & Hfirst & Hlast).
  - left. reflexivity.
  - cbv zeta in Hfirst, Hlast. split.
    + rewrite Hfirst. vm_compute. reflexivity.
    + rewrite Hlast. vm_compute. reflexivity.
Defined.

(** C1 fails as stated: a test first seen at the instant [t0] is merged with a
    result that carries another first-seen date, and that date replaces the
    one of the existing node, in [mergeResults] and so after a debrief. *)
Lemma first_seen_replaced_by_incoming :
  stats_first (this_result testA) = JStr "t0"
  /\ stats_first (mergeResults (Some (this_result testA))
                    (seen "A" "2021-06-01T00:00:00.000Z") worldA).1
     <> stats_first (this_result testA)
  /\ stats_first (this_result
        (debrief (seen "A" "2021-06-01T00:00:00.000Z") false testA worldA).1.1)
     <> stats_first (this_result testA).
Proof.
  split; [vm_compute; reflexivity|].
  split; vm_compute; discriminate.
Qed.

(** ** How a call of [debrief] ends *)








(** ** Selective runs leave the other children alone *)

Lemma findTest_Some tests ident i child :
  findTest tests ident = Some (i, child) ->
  tests !! i = Some child /\ getId child = ident.
Proof.
  unfold findTest. intros Hf. apply list_find_Some in Hf as (Hi & Hid & _).
  by split.
Qed.

Lemma mergeTests_frame b cleanup tests : forall children w i child,
  children !! i = Some child ->
  getId child ∉ r_id <$> tests ->
  (mergeTests b cleanup tests children w).1.1 !! i = Some child.
Proof.
  induction tests as [|result rest IH]; intros children w i child Hi Hout.
  - exact Hi.
  - simpl. rewrite fmap_cons in Hout.
    apply not_elem_of_cons in Hout as [Hne Hrest].
    destruct (findTest children (r_id result)) as [[j found]|] eqn:Hfind.
    + apply findTest_Some in Hfind as [Hj Hid].
      unfold mbind, M_bind, mret, M_ret.
      destruct (b result cleanup (Some found) w) as [child' w1].
      specialize (IH (<[j := child']> children) w1 i child).
      destruct (mergeTests b cleanup rest (<[j := child']> children) w1)
        as [[children' rest'] w2].
      simpl in *. apply IH; [|exact Hrest].
      rewrite list_lookup_insert_ne; [exact Hi|].
      intros ->. rewrite Hi in Hj. injection Hj as ->. congruence.
    + unfold mbind, M_bind, mret, M_ret.
      destruct (b result false None w) as [child' w1].
      specialize (IH (children ++ [child']) w1 i child).
      destruct (mergeTests b cleanup rest (children ++ [child']) w1)
        as [[children' rest'] w2].
      simpl in *. apply IH; [|exact Hrest].
      apply lookup_app_l_Some. exact Hi.
Qed.

(** C4. [build] with [cleanup = false] leaves every child that the payload
    does not represent as it is, at its place. On the suite with A (passed)
    and B (failed), a run of A alone that passes leaves B [failed] and the
    suite [failed], with [partial] set. *)
Theorem selective_build_keeps_other_children :
  (forall (result : ITestResult) (this : Test) (w : World) (i : nat) (child : Test),
      this_tests this !! i = Some child ->
      getId child ∉ r_id <$> default [] (r_tests result) ->
      this_tests (build result false (Some this) w).1 !! i = Some child)
  /\ (let suite := (build onlyA_payload false (Some suiteAB) world1).1 in
      (getId <$> this_tests suiteAB) = [Some "A"; Some "B"]
      /\ (getStatus <$> this_tests suiteAB) = [st_passed; st_failed]
      /\ (getStatus <$> this_tests suite) = [st_passed; st_failed]
      /\ this_tests suite !! 1 = this_tests suiteAB !! 1
      /\ getStatus suite = st_failed
      /\ partial suite = true).
Proof.
  split.
  - intros result this w i child Hi Hout.
    destruct (r_tests result) as [[|x xs]|] eqn:Hts.
    + destruct (build_without_tests_keeps_children_aux result false this w)
        as [-> _]; auto.
    + rewrite (build_node _ _ _ _ _ _ Hts).
      unfold debriefTests, mbind, M_bind, mret, M_ret; cbv zeta.
      destruct (mergeResults _ _ w) as [merged w1].
      match goal with
      | |- context [mergeTests build false ?ts ?cs ?w0] =>
          pose proof (mergeTests_frame build false ts cs w0 i child) as Hframe;
          destruct (mergeTests build false ts cs w0) as [[children tests'] w2]
      end.
      cbn [fst snd this_tests] in *. apply Hframe; [|exact Hout].
      by destruct this.
    + destruct (build_without_tests_keeps_children_aux result false this w)
        as [-> _]; auto.
  - vm_compute. repeat split; reflexivity.
Qed.

Lemma selective_build_keeps_other_children_witness :
  this_tests (build onlyA_payload false (Some suiteAB) world1).1 !! 1
  = Some (mkTest st_failed
            (set_stats (Some {[ "first" := JStr "t2" ]}) (leaf "B" (Some st_failed)))
            false false false []).
Proof.
  apply (proj1 selective_build_keeps_other_children
           onlyA_payload suiteAB world1 1).
  - vm_compute. reflexivity.
  - apply (bool_decide_unpack _). vm_compute. exact I.
Defined.

(** ** Building twice *)


Lemma set_tests_same r : set_tests (r_tests r) r = r.
Proof. by destruct r. Qed.

(** What [mergeResults] hands back: the result itself, or the result with a
    first-seen date that is not [undefined]. *)
Lemma mergeResults_shape own r w :
  (truthy (stats_first r) = true /\ (mergeResults own r w).1 = r)
  \/ (truthy (stats_first r) = false /\
      exists v, v <> JUndefined
        /\ (mergeResults own r w).1
           = set_stats (Some (<["first" := v]> (default ∅ (r_stats r)))) r).
Proof.
  unfold mergeResults. destruct (truthy (stats_first r)) eqn:Ht; [by left|].
  right. split; [reflexivity|].
  unfold mbind, M_bind, mret, M_ret, Date_toISOString, spread_with; simpl.
  eexists. split; [|reflexivity].
  by destruct (get_prop _ "first").
Qed.



(** [build] on a payload with child results, step by step. *)
Lemma build_node_run r cleanup this w x xs :
  r_tests r = Some (x :: xs) ->
  let mw := mergeResults (this_result <$> this)
                         (set_status (getRecursiveStatus r) r) w in
  let this1 := updateStatus (default st_idle (getRecursiveStatus r))
                            (assign_result this mw.1) in
  let mt := mergeTests build cleanup (x :: xs) (this_tests this1) mw.2 in
  let kept := if cleanup then filter (fun t => represented (x :: xs) t) mt.1.1
              else mt.1.1 in
  build r cleanup this w
  = (mkTest (parseStatus (getStatus <$> kept))
            (set_tests (Some mt.1.2) mw.1)
            (selected this1) (expanded this1)
            (negb (forallb (represented (x :: xs)) kept))
            kept,
     mt.2).
Proof.
  intros Hts. cbv zeta. rewrite (build_node _ _ _ _ _ _ Hts).
  unfold debriefTests, mbind, M_bind, mret, M_ret; cbv zeta.
  destruct (mergeResults _ _ w) as [merged w1]. cbn [fst snd].
  change (r_status (set_status (getRecursiveStatus r) r))
    with (getRecursiveStatus r).
  destruct (mergeTests build cleanup (x :: xs) _ w1) as [[children tests'] w2].
  cbn [fst snd]. by rewrite this_result_assign.
Qed.

Lemma build_leaf_run r cleanup this w :
  r_tests r = None \/ r_tests r = Some [] ->
  (build r cleanup this w).1
  = updateStatus (default st_idle (getRecursiveStatus r))
      (assign_result this
         (mergeResults (this_result <$> this)
                       (set_status (getRecursiveStatus r) r) w).1).
Proof.
  intros Hts. rewrite build_leaf by exact Hts.
  unfold mbind, M_bind, mret, M_ret; cbv zeta.
  by destruct (mergeResults _ _ w) as [merged w1].
Qed.

























(** ** Quoting the arguments of a remote command *)

Lemma quote_backslashes_plain s :
  occurs "\"%char s = false -> quote_backslashes s = s.
Proof.
  induction s as [|c s IH]; [reflexivity|]. simpl.
  intros Hocc. apply orb_false_iff in Hocc as [Hc Hs].
  rewrite Hc. by rewrite IH.
Qed.

Lemma quote_first_pipe_plain s :
  occurs "|"%char s = false -> quote_first_pipe s = s.
Proof.
  induction s as [|c s IH]; [reflexivity|]. simpl.
  intros Hocc. apply orb_false_iff in Hocc as [Hc Hs].
  rewrite Hc. by rewrite IH.
Qed.

Lemma quote_backslashes_app a b :
  quote_backslashes (a +:+ b) = quote_backslashes a +:+ quote_backslashes b.
Proof.
  induction a as [|c a IH]; [reflexivity|]. simpl.
  destruct (Ascii.eqb c "\"%char); simpl; by rewrite IH.
Qed.

Lemma occurs_pipe_quote_backslashes s :
  occurs "|"%char (quote_backslashes s) = occurs "|"%char s.
Proof.
  induction s as [|c s IH]; [reflexivity|]. simpl.
  destruct (Ascii.eqb c "\"%char) eqn:Hc.
  - change ("'\\'" +:+ quote_backslashes s)
      with (String "'" (String "\" (String "\" (String "'" (quote_backslashes s))))).
    simpl. rewrite IH. apply Ascii.eqb_eq in Hc as ->. reflexivity.
  - simpl. by rewrite IH.
Qed.

Lemma quote_first_pipe_at a b :
  occurs "|"%char a = false ->
  quote_first_pipe (a +:+ "|" +:+ b) = a +:+ "'|'" +:+ b.
Proof.
  induction a as [|c a IH]; [reflexivity|]. simpl.
  intros Hocc. apply orb_false_iff in Hocc as [Hc Ha].
  rewrite Hc. by rewrite IH.
Qed.

(** An argument with neither a backslash nor a pipe is passed as it is. *)
Theorem sanitize_plain :
  forall arg : string,
    occurs "\"%char arg = false -> occurs "|"%char arg = false ->
    sanitize arg = arg.
Proof.
  intros arg Hb Hp. unfold sanitize.
  rewrite quote_backslashes_plain by exact Hb.
  by apply quote_first_pipe_plain.
Qed.

Lemma sanitize_plain_witness : sanitize "vendor/bin/phpunit --filter=a" = "vendor/bin/phpunit --filter=a".
Proof. apply sanitize_plain; reflexivity. Defined.

(** Every backslash is quoted, but of the pipes only the first: what follows
    it keeps its pipes bare. Without any pipe only the backslashes change. *)
Theorem sanitize_quotes_first_pipe_only :
  forall before after : string,
    occurs "|"%char before = false ->
    sanitize (before +:+ "|" +:+ after)
    = quote_backslashes before +:+ "'|'" +:+ quote_backslashes after
    /\ occurs "|"%char (quote_backslashes after) = occurs "|"%char after
    /\ sanitize before = quote_backslashes before.
Proof.
  intros before after Hp. unfold sanitize. split; [|split].
  - rewrite !quote_backslashes_app. simpl.
    apply (quote_first_pipe_at (quote_backslashes before)).
    by rewrite occurs_pipe_quote_backslashes.
  - apply occurs_pipe_quote_backslashes.
  - apply quote_first_pipe_plain. by rewrite occurs_pipe_quote_backslashes.
Qed.

Lemma sanitize_quotes_first_pipe_only_witness :
  sanitize "cat a\b | grep x | wc" = "cat a'\\'b '|' grep x | wc".
Proof.
  exact (proj1 (sanitize_quotes_first_pipe_only "cat a\b " " grep x | wc" eq_refl)).
Defined.

(** ** Lookups that succeed, and the handlers built on them *)

Section HandlersProperties.

Context {Project Repository Framework Nugget Rendered : Type}.
Context `{!Frameworks Project Repository Framework Nugget Rendered}.

Lemma Reaches_last (framework : Framework) from i ids ns :
  Reaches framework from (i :: ids) ns -> is_Some (last ns).
Proof.
  intros Hr. pose proof (Reaches_length _ _ _ _ Hr) as Hlen.
  destruct ns as [|n ns] using rev_ind; [discriminate|].
  rewrite last_snoc. by eexists.
Qed.

(** The loop goes through every path that exists. *)
Lemma walk_complete (framework : Framework) from i ids acc ns :
  Reaches framework from (i :: ids) ns ->
  exists n, last ns = Some n
            /\ walk framework from i ids acc = Some (acc ++ ns, n).
Proof.
  intros Hr.
  destruct (walk framework from i ids acc) as [[ns0 n]|] eqn:Hw.
  - apply walk_Some in Hw as (ns' & Hr' & -> & Hl).
    rewrite (Reaches_functional _ _ _ _ _ Hr' Hr) in *. by exists n.
  - exfalso. apply walk_None in Hw. apply Hw. by exists ns.
Qed.

Lemma entities_of_path (project : Project) (frameworkId : string)
    (identifiers : list string) (repository : Repository) (framework : Framework)
    (ns : list Nugget) :
  getContextByFrameworkId project frameworkId = Some (repository, framework) ->
  Reaches framework None identifiers ns ->
  entities (Some project) frameworkId identifiers
  = Resolved (mkEntities project repository framework
                (match identifiers with [] => None | _ => Some ns end)
                (last ns)).
Proof.
  intros Hctx Hr. unfold entities. rewrite Hctx.
  destruct identifiers as [|i ids].
  - inversion Hr; subst. reflexivity.
  - destruct (walk_complete framework None i ids [] ns Hr) as (n & Hl & ->).
    by rewrite Hl.
Qed.

(** When the framework exists and every identifier is found along the path,
    [entities] resolves (it never rejects a path that exists) with the
    nuggets of the path and the last of them; for an empty list of
    identifiers it resolves without nuggets. *)
Theorem entities_resolves_existing_path :
  forall (project : Project) (frameworkId : string) (identifiers : list string)
         (repository : Repository) (framework : Framework) (ns : list Nugget),
    getContextByFrameworkId project frameworkId = Some (repository, framework) ->
    Reaches framework None identifiers ns ->
    entities (Some project) frameworkId identifiers
    = Resolved (mkEntities project repository framework
                  (match identifiers with [] => None | _ => Some ns end)
                  (last ns)).
Proof.
  intros project frameworkId identifiers repository framework ns Hctx Hr.
  by apply entities_of_path.
Qed.

(** ['test-get'] answers with the rendered path exactly when the path is not
    empty and exists: for an empty list of identifiers it gives the
    null reply even though nothing is missing, because the handler maps over
    the absent list of nuggets. *)
Theorem test_get_found_or_null :
  forall (project : Project) (frameworkId : string) (identifiers : list string)
         (repository : Repository) (framework : Framework) (ns : list Nugget),
    getContextByFrameworkId project frameworkId = Some (repository, framework) ->
    Reaches framework None identifiers ns ->
    test_get (Some project) frameworkId identifiers
    = match identifiers, last ns with
      | _ :: _, Some n =>
          Found (renderRepository repository) (renderFramework framework)
                (renderNugget <$> ns) (renderNugget n)
      | _, _ => NullFrameworkAndNuggets
      end.
Proof.
  intros project frameworkId identifiers repository framework ns Hctx Hr.
  unfold test_get.
  rewrite (entities_of_path _ _ _ _ _ _ Hctx Hr). simpl.
  destruct identifiers as [|i ids]; [reflexivity|].
  destruct (Reaches_last _ _ _ _ _ Hr) as [n ->]. reflexivity.
Qed.

(** Every nugget that [entities] returns is expanded, provided expanding a
    nugget leaves it expanded. *)
Theorem entities_expands_path :
  forall (project : option Project) (frameworkId : string)
         (identifiers : list string) (e : ProjectEntities Project Repository Framework Nugget)
         (ns : list Nugget),
    (forall n, isExpanded (expand n) = true) ->
    entities project frameworkId identifiers = Resolved e ->
    e_nuggets e = Some ns ->
    Forall (fun n => isExpanded n = true) ns
    /\ (forall n, e_nugget e = Some n -> isExpanded n = true).
Proof.
  intros project frameworkId identifiers e ns Hexp He Hns.
  assert (Hall : forall fw from ids l,
             Reaches fw from ids l -> Forall (fun n => isExpanded n = true) l).
  { intros fw from ids l Hr.
    induction Hr as [from|i ids s l Hs _ IH|parent i ids t l Ht _ IH];
      constructor; try exact IH.
    - destruct (isExpanded s) eqn:Hs'; [exact Hs'|apply Hexp].
    - destruct (isExpanded t) eqn:Ht'; [exact Ht'|apply Hexp]. }
  unfold entities in He.
  destruct project as [p|]; [|discriminate].
  destruct (getContextByFrameworkId p frameworkId) as [[repo fw]|];
    [|discriminate].
  destruct identifiers as [|i ids].
  { injection He as <-. discriminate. }
  destruct (walk fw None i ids []) as [[ns0 n0]|] eqn:Hw; [|discriminate].
  injection He as <-. simpl in *. injection Hns as ->.
  apply walk_Some in Hw as (ns' & Hr & -> & Hl). simpl in *.
  pose proof (Hall _ _ _ _ Hr) as Hfa. split; [exact Hfa|].
  intros n [= <-]. rewrite Forall_forall in Hfa. apply Hfa.
  destruct ns' as [|x ns'] using rev_ind; [discriminate|].
  rewrite last_snoc in Hl. injection Hl as ->.
  apply elem_of_app. right. constructor.
Qed.

(** The context menu of a path that exists: for one identifier the suite
    menu of the suite found, for more the test menu of that suite and of
    the last test of the path; neither is opened on an undefined nugget. A
    lookup that rejects opens nothing. *)
Theorem nugget_context_menu_targets :
  forall (project : Project) (frameworkId i : string) (ids : list string)
         (repository : Repository) (framework : Framework) (ns : list Nugget),
    getContextByFrameworkId project frameworkId = Some (repository, framework) ->
    Reaches framework None (i :: ids) ns ->
    exists suite test,
      head ns = Some suite /\ last ns = Some test
      /\ nugget_context_menu (Some project) frameworkId (i :: ids)
         = Some (match ids with
                 | [] => OpenSuiteMenu (Some suite)
                 | _ :: _ => OpenTestMenu (Some suite) (Some test)
                 end).
Proof.
  intros project frameworkId i ids repository framework ns Hctx Hr.
  unfold nugget_context_menu.
  rewrite (entities_of_path _ _ _ _ _ _ Hctx Hr). simpl.
  pose proof (Reaches_length _ _ _ _ Hr) as Hlen.
  destruct (Reaches_last _ _ _ _ _ Hr) as [test Hlast].
  destruct ns as [|suite rest]; [discriminate|].
  exists suite, test. split; [reflexivity|]. split; [exact Hlast|].
  destruct ids as [|j ids]; simpl in Hlen.
  - destruct rest; [|discriminate]. simpl in *. unfold pop. by rewrite Hlast.
  - destruct rest as [|t rest]; [discriminate|]. simpl.
    unfold pop. destruct rest; simpl in *; congruence.
Qed.

End HandlersProperties.

Lemma sample_path_reaches : Reaches [suiteAB] None ["S"; "A"] sample_path.
Proof.
  assert (Hpath : sample_path
                  = [if isExpanded suiteAB then suiteAB else expand suiteAB;
                     if isExpanded (default suiteAB (head (this_tests suiteAB)))
                     then default suiteAB (head (this_tests suiteAB))
                     else expand (default suiteAB (head (this_tests suiteAB)))])
    by (vm_compute; reflexivity).
  rewrite Hpath.
  apply (reaches_suite [suiteAB] "S" ["A"] suiteAB); [vm_compute; reflexivity|].
  apply (reaches_test [suiteAB] _ "A" []
           (default suiteAB (head (this_tests suiteAB))));
    [vm_compute; reflexivity|].
  constructor.
Qed.

Lemma entities_resolves_existing_path_witness :
  entities (Some sample_project) "phpunit" ["S"; "A"]
  = Resolved (mkEntities sample_project () [suiteAB] (Some sample_path)
                         (last sample_path)).
Proof.
  apply (entities_resolves_existing_path sample_project "phpunit" ["S"; "A"]
           () [suiteAB] sample_path).
  - vm_compute. reflexivity.
  - exact sample_path_reaches.
Defined.

Lemma test_get_found_or_null_witness :
  test_get (Some sample_project) "phpunit" ["S"; "A"]
  = match last sample_path with
    | Some n => Found (renderRepository ()) (renderFramework [suiteAB])
                      (renderNugget <$> sample_path) (renderNugget n)
    | None => NullFrameworkAndNuggets
    end.
Proof.
  apply (test_get_found_or_null sample_project "phpunit" ["S"; "A"]
           () [suiteAB] sample_path).
  - vm_compute. reflexivity.
  - exact sample_path_reaches.
Defined.

Lemma entities_expands_path_witness :
  Forall (fun n : Test => expanded n = true) sample_path.
Proof.
  refine (proj1 (entities_expands_path (Some sample_project) "phpunit" ["S"; "A"]
           (mkEntities sample_project () [suiteAB] (Some sample_path)
                       (last sample_path))
           sample_path _ _ eq_refl)).
  - intros n. reflexivity.
  - vm_compute. reflexivity.
Defined.

Lemma nugget_context_menu_targets_witness :
  exists suite test,
    head sample_path = Some suite /\ last sample_path = Some test
    /\ nugget_context_menu (Some sample_project) "phpunit" ["S"; "A"]
       = Some (OpenTestMenu (Some suite) (Some test)).
Proof.
  apply (nugget_context_menu_targets sample_project "phpunit" "S" ["A"]
           () [suiteAB] sample_path).
  - vm_compute. reflexivity.
  - exact sample_path_reaches.
Defined.

(** ** What a merge and a build take from the payload *)

(** [mergeResults] changes nothing but [stats.first]: every other field of
    the incoming result, and every other key of its stats, come back as they
    were; and the result it returns always has a first-seen date. *)
Theorem mergeResults_touches_only_first_seen :
  forall (own : option ITestResult) (result : ITestResult) (w : World),
    set_stats (r_stats result) (mergeResults own result w).1 = result
    /\ (forall key, key <> "first" ->
          get_prop (r_stats (mergeResults own result w).1) key
          = get_prop (r_stats result) key)
    /\ stats_first (mergeResults own result w).1 <> JUndefined.
Proof.
  intros own result w.
  destruct (mergeResults_shape own result w) as [[Ht ->]|[Ht (v & Hv & ->)]].
  - split; [by destruct result|]. split; [done|].
    intros Hu. by rewrite Hu in Ht.
  - split; [by destruct result|]. split.
    + intros key Hkey. simpl. rewrite lookup_insert_ne by done.
      by destruct (r_stats result).
    + unfold stats_first. simpl. by rewrite lookup_insert_eq.
Qed.

Lemma set_stats_same_r r : set_stats (r_stats r) r = r.
Proof. by destruct r. Qed.

(** What a build keeps of the payload, whatever node it is merged into. *)
Lemma build_payload_fields r cleanup this w :
  exists status stats tests,
    this_result (build r cleanup this w).1
    = set_tests tests (set_stats stats (set_status status r)).
Proof.
  destruct (r_tests r) as [[|x xs]|] eqn:Hts.
  - rewrite build_leaf_run by auto. rewrite this_result_assign.
    destruct (mergeResults_shape (this_result <$> this)
                (set_status (getRecursiveStatus r) r) w)
      as [[_ ->]|[_ (v & _ & ->)]]; do 3 eexists;
      rewrite <- (set_tests_same (set_stats _ _)); reflexivity.
  - rewrite (build_node_run _ _ _ _ _ _ Hts). cbn [fst this_result].
    destruct (mergeResults_shape (this_result <$> this)
                (set_status (getRecursiveStatus r) r) w)
      as [[_ ->]|[_ (v & _ & ->)]]; do 3 eexists; reflexivity.
  - rewrite build_leaf_run by auto. rewrite this_result_assign.
    destruct (mergeResults_shape (this_result <$> this)
                (set_status (getRecursiveStatus r) r) w)
      as [[_ ->]|[_ (v & _ & ->)]]; do 3 eexists;
      rewrite <- (set_tests_same (set_stats _ _)); reflexivity.
Qed.

(** A build does not compare the payload with the node it is merged into:
    the node comes out with the id, name, display name, feedback, console
    output and parameters of the payload, also when it had others before;
    and so after a debrief. *)
Theorem build_takes_identity_from_payload :
  forall (result : ITestResult) (cleanup : bool) (this : option Test) (old : Test)
         (w : World),
    (let t := (build result cleanup this w).1 in
     getId t = r_id result /\ getName t = r_name result
     /\ r_displayName (this_result t) = r_displayName result
     /\ r_feedback (this_result t) = r_feedback result
     /\ r_console (this_result t) = r_console result
     /\ r_params (this_result t) = r_params result)
    /\ getId (debrief result cleanup old w).1.1 = r_id result
    /\ getName (debrief result cleanup old w).1.1 = r_name result.
Proof.
  intros result cleanup this old w. split.
  - cbv zeta. unfold getId, getName.
    destruct (build_payload_fields result cleanup this w)
      as (status & stats & tests & ->).
    by destruct result.
  - unfold debrief, mbind, M_bind, mret, M_ret, Date_toISOString, emit; cbv zeta.
    match goal with
    | |- context [build ?r cleanup (Some old) ?w0] =>
        destruct (build_payload_fields r cleanup (Some old) w0)
          as (status & stats & tests & Hres);
        destruct (build r cleanup (Some old) w0) as [this' w2]
    end.
    cbn [fst snd] in *. unfold getId, getName. rewrite Hres.
    by destruct result.
Qed.

(** A debrief overrides whatever last-run date the payload carries with the
    time of the call, and keeps every key of the payload's stats other than
    [first] and [last]. *)
Theorem debrief_stamps_last_run :
  forall (result : ITestResult) (cleanup : bool) (this : Test) (w : World),
    stats_last (this_result (debrief result cleanup this w).1.1)
    = JStr (Date_toISOString w).1
    /\ (forall key, key <> "first" -> key <> "last" ->
          get_prop (r_stats (this_result (debrief result cleanup this w).1.1)) key
          = get_prop (r_stats result) key).
Proof.
  intros result cleanup this w.
  split; [apply (debrief_dates result cleanup this w)|].
  intros key Hfirst Hlast.
  unfold debrief, mbind, M_bind, mret, M_ret, Date_toISOString, emit; cbv zeta.
  match goal with
  | |- context [build ?r cleanup (Some this) ?w0] =>
      pose proof (build_stats r cleanup (Some this) w0) as Hstats;
      destruct (build r cleanup (Some this) w0) as [this' w2]
  end.
  cbn [fst snd] in *. rewrite Hstats.
  match goal with
  | |- context [mergeResults ?own ?r ?w0] =>
      destruct (mergeResults_shape own r w0) as [[_ ->]|[_ (v & _ & ->)]]
  end; simpl; unfold spread_with.
  - rewrite lookup_insert_ne by done. by destruct (r_stats result).
  - rewrite !lookup_insert_ne by done. by destruct (r_stats result).
Qed.

(** ** The modal store *)

Lemma dispatch_tracks action s s' :
  dispatch action s = (s', Normal ()) -> modal_open s' = hasModals s'.
Proof.
  assert (Hchange : forall st, modal_open (change st) = hasModals (change st)).
  { intros st. unfold change, hasModals; simpl. by destruct (length (modals st)). }
  destruct action as [payload| |]; simpl.
  - unfold open_modal. intros [= <-]. apply Hchange.
  - unfold close_modal. destruct (REMOVE s) as [st [[]|e]]; [|discriminate].
    intros [= <-]. apply Hchange.
  - unfold clear_modals. intros [= <-]. apply Hchange.
Qed.

(** After any actions that all complete, the last of them leaves the body
    with the class [modal-open] exactly when the store has modals. *)
Theorem modal_open_tracks_stack :
  forall (actions : list ModalAction) (s s' : ModalStore),
    actions <> [] ->
    dispatch_all actions s = (s', Normal ()) ->
    modal_open s' = hasModals s'.
Proof.
  induction actions as [|action rest IH]; intros s s' Hne Hrun; [done|].
  simpl in Hrun.
  destruct (dispatch action s) as [s1 [[]|e]] eqn:Hd; [|discriminate].
  destruct rest as [|action' rest].
  - simpl in Hrun. injection Hrun as <-. by eapply dispatch_tracks.
  - by apply (IH s1 s').
Qed.

Lemma modal_open_tracks_stack_witness :
  modal_open (dispatch_all [Open confirm_modal; Open about_modal; Close] empty_store).1
  = true.
Proof.
  rewrite (modal_open_tracks_stack [Open confirm_modal; Open about_modal; Close]
             empty_store
             (dispatch_all [Open confirm_modal; Open about_modal; Close] empty_store).1).
  - reflexivity.
  - discriminate.
  - reflexivity.
Defined.

Lemma dispatch_all_app actions rest s :
  dispatch_all (actions ++ rest) s
  = match dispatch_all actions s with
    | (s', Normal _) => dispatch_all rest s'
    | (s', Throw e) => (s', Throw e)
    end.
Proof.
  revert s. induction actions as [|a actions IH]; intros s; [reflexivity|].
  simpl. destruct (dispatch a s) as [s1 [[]|e]]; [apply IH|reflexivity].
Qed.

Lemma open_all payloads : forall s,
  dispatch_all (Open <$> payloads) s
  = (mkStore (modals s ++ payloads) (called s)
             (match payloads with
              | [] => modal_open s
              | _ => true
              end), Normal ()).
Proof.
  induction payloads as [|p payloads IH]; intros s.
  - simpl. rewrite app_nil_r. by destruct s.
  - simpl. rewrite IH. simpl. rewrite <- app_assoc. simpl.
    f_equal. f_equal. destruct payloads; [|reflexivity].
    rewrite length_app. simpl. by rewrite Nat.add_1_r.
Qed.

Lemma close_all payloads : forall base calls flag,
  forallb closes_quietly payloads = true ->
  dispatch_all (replicate (length payloads) Close)
               (mkStore (base ++ payloads) calls flag)
  = (mkStore base (calls ++ concat (callback_of <$> rev payloads))
             (match payloads with
              | [] => flag
              | _ => negb (Nat.eqb (length base) 0)
              end), Normal ()).
Proof.
  induction payloads as [|p payloads IH] using rev_ind; intros base calls flag Hq.
  - simpl. by rewrite !app_nil_r.
  - rewrite forallb_app in Hq. apply andb_true_iff in Hq as [Hq Hp].
    simpl in Hp. rewrite andb_true_r in Hp.
    rewrite length_app. simpl. rewrite Nat.add_1_r. simpl.
    unfold close_modal, REMOVE. cbn [modals called modal_open].
    rewrite app_assoc, last_snoc, length_app. simpl.
    rewrite Nat.add_1_r. simpl. rewrite Nat.sub_0_r, take_app_length.
    rewrite rev_app_distr. simpl.
    assert (Hflag : match payloads ++ [p] with
                    | [] => flag
                    | _ => negb (Nat.eqb (length base) 0)
                    end = negb (Nat.eqb (length base) 0))
      by by destruct payloads.
    rewrite Hflag.
    assert (Hflag' : forall f : bool,
               match payloads with
               | [] => negb (Nat.eqb (length (base ++ payloads)) 0)
               | _ => negb (Nat.eqb (length base) 0)
               end = negb (Nat.eqb (length base) 0)).
    { intros _. destruct payloads; [by rewrite app_nil_r|reflexivity]. }
    unfold closes_quietly, callback_of in *.
    destruct (callback p) as [[f|v]|]; unfold change; cbn [modals called modal_open].
    + rewrite IH by exact Hq. rewrite (Hflag' true), <- app_assoc. reflexivity.
    + apply negb_true_iff in Hp. rewrite Hp.
      rewrite IH by exact Hq. rewrite (Hflag' true). reflexivity.
    + rewrite IH by exact Hq. rewrite (Hflag' true). reflexivity.
Qed.

(** Closing as many modals as were opened gives the stack back as it was,
    and calls the callback functions of the opened modals once each, the
    last opened first. *)
Theorem open_then_close_restores :
  forall (payloads : list Modal) (s : ModalStore),
    payloads <> [] ->
    forallb closes_quietly payloads = true ->
    dispatch_all ((Open <$> payloads) ++ replicate (length payloads) Close) s
    = (mkStore (modals s) (called s ++ concat (callback_of <$> rev payloads))
               (hasModals s), Normal ()).
Proof.
  intros payloads s Hne Hq.
  rewrite dispatch_all_app, open_all, close_all by exact Hq.
  destruct payloads as [|p payloads]; [done|].
  unfold hasModals. by destruct (modals s).
Qed.

Lemma open_then_close_restores_witness :
  dispatch_all [Open confirm_modal; Open about_modal; Close; Close] empty_store
  = (mkStore [] [7] false, Normal ()).
Proof.
  apply (open_then_close_restores [confirm_modal; about_modal] empty_store).
  - discriminate.
  - reflexivity.
Defined.

(** [clear] drops every modal without calling any callback, also those whose
    callback would throw; closing an empty stack then changes nothing and
    does not throw, however often it is done. *)
Theorem clear_then_close_is_quiet :
  forall (n : nat) (s : ModalStore),
    dispatch_all (Clear :: replicate n Close) s
    = (mkStore [] (called s) false, Normal ()).
Proof.
  intros n s. simpl. unfold CLEAR, change. cbn [modals called modal_open length].
  generalize (called s). clear s.
  induction n as [|n IH]; intros calls; [reflexivity|].
  simpl. exact (IH calls).
Qed.

(** A callback that is truthy but no function makes [close] throw after the
    modal has been taken off the stack and before the body class is
    updated: the modal is gone, the class stays as it was. Opened on an
    empty stack, such a modal leaves the body with [modal-open] and no
    modal. *)
Theorem close_throwing_callback_leaves_class :
  forall (s : ModalStore) (payload : Modal) (v : JsValue),
    callback payload = Some (cb_value v) ->
    truthy v = true ->
    close_modal (open_modal payload s).1
    = (mkStore (modals s) (called s) true, Throw TypeError)
    /\ (modals s = [] ->
        hasModals (close_modal (open_modal payload s).1).1 = false
        /\ modal_open (close_modal (open_modal payload s).1).1 = true).
Proof.
  intros s payload v Hcb Hv.
  assert (Hclose : close_modal (open_modal payload s).1
                   = (mkStore (modals s) (called s) true, Throw TypeError)).
  { unfold open_modal, close_modal, REMOVE, change, ADD.
    cbn [fst modals called modal_open].
    rewrite last_snoc, Hcb, Hv, length_app. simpl.
    rewrite Nat.add_1_r. simpl. by rewrite Nat.sub_0_r, take_app_length. }
  split; [exact Hclose|].
  intros Hempty. rewrite Hclose. unfold hasModals. simpl. by rewrite Hempty.
Qed.

Lemma close_throwing_callback_leaves_class_witness :
  close_modal (open_modal broken_modal empty_store).1
  = (mkStore [] [] true, Throw TypeError).
Proof.
  exact (proj1 (close_throwing_callback_leaves_class empty_store broken_modal
                  (JStr "done") eq_refl eq_refl)).
Defined.

(** ** Switching projects *)

Lemma isEmpty_pickBy identifier :
  isEmpty (pickBy_identity identifier) = true <-> blank (Some identifier).
Proof.
  unfold isEmpty, pickBy_identity, blank.
  rewrite Nat.eqb_eq, map_size_empty_iff, map_empty_filter.
  unfold map_Forall. simpl. split.
  - intros Hall key v Hkv. specialize (Hall key v Hkv).
    by destruct (truthy v).
  - intros Hall key v Hkv Ht. rewrite (Hall key v Hkv) in Ht. discriminate.
Qed.

(** Switching to an identifier that is absent, or whose values are all
    falsy, clears the window and tells the renderer; any other identifier
    becomes the window's project and is stored as the current one. In both
    cases the project the window had before, if any, is stopped, once and
    last. *)
Theorem project_switch_outcome :
  forall (window : AppWindow) (identifier : option JsProps),
    exists window' effects,
      project_switch (Some window) identifier = Normal (window', effects)
      /\ (blank identifier ->
          window_project window' = None
          /\ take 2 effects = [SentToRenderer "settings-updated"; SentToRenderer "clear"])
      /\ (~ blank identifier ->
          window_project window' = identifier
          /\ (CurrentProjectStored <$> identifier) = head effects)
      /\ drop (length effects - length (option_list (window_project window))) effects
         = ProjectStopped <$> option_list (window_project window).
Proof.
  intros [project] identifier. unfold project_switch.
  cbn [window_project].
  destruct identifier as [i|].
  - destruct (isEmpty (pickBy_identity i)) eqn:Hempty; cbn [negb].
    + apply isEmpty_pickBy in Hempty.
      do 2 eexists. split; [reflexivity|]. split; [|split].
      * intros _. by split.
      * intros Hnot. by destruct Hnot.
      * by destruct project.
    + assert (Hnot : ~ blank (Some i)).
      { intros Hb. apply isEmpty_pickBy in Hb. congruence. }
      do 2 eexists. split; [reflexivity|]. split; [|split].
      * intros Hb. by destruct Hnot.
      * intros _. by split.
      * by destruct project.
  - do 2 eexists. split; [reflexivity|]. split; [|split].
    + intros _. by split.
    + intros Hnot. by destruct Hnot.
    + by destruct project.
Qed.

Lemma project_switch_outcome_witness :
  exists window' effects,
    project_switch (Some (mkWindow (Some named_identifier))) (Some blank_identifier)
    = Normal (window', effects)
    /\ window_project window' = None
    /\ drop (length effects - 1) effects = [ProjectStopped named_identifier].
Proof.
  destruct (project_switch_outcome (mkWindow (Some named_identifier))
              (Some blank_identifier))
    as (window' & effects & Hrun & Hblank & _ & Hstop).
  exists window', effects. split; [exact Hrun|]. split; [|exact Hstop].
  apply Hblank. apply isEmpty_pickBy. vm_compute. reflexivity.
Defined.
